(** * gosu-process-name: process names through the Win32 process API

    A shallow embedding of [src/lib/gosu-process-name.js].  The module binds
    four native calls ([EnumProcesses], [EnumProcessModules], [OpenProcess],
    [K32GetModuleBaseNameA]) and builds on them an identifier enumerator
    ([getProcessIDList]), a name resolver ([getProcessName]), a generator
    ([processNameIterator]) and two consumers ([getProcessNameList],
    [checkProcessIsRunning]).

    The operating system is an oracle: a record of four functions over an
    abstract world [W].  The JavaScript code is written in state-passing
    style over a [state] that holds the world, the log of native calls made
    so far and the process handles that were obtained and not given back. *)

From Stdlib Require Import List NArith Lia Bool Arith.
From Stdlib.Strings Require Import String Ascii Byte.
Import ListNotations.

(** ** FFI types and constants (lines 12-25 of the source) *)

(** [ref.types.ulong]: a JavaScript number holding an unsigned machine word.
    The source computes on these as JavaScript numbers, which do not wrap. *)
Definition DWord := N.

(** [ref.refType(ref.types.void)]: a pointer, modelled by its address; the
    NULL handle is address 0 and is the only handle that fails the test
    [if (hProcess)]. *)
Definition Handle := N.

(** [DWord.size]: a DWORD has four bytes. *)
Definition DWord_size : N := 4.

Definition QUERY_SIZE : N := 2048.
Definition MAX_PROCESS_NAME_LENGTH : N := 32.

Definition PROCESS_QUERY_INFORMATION : N := 0x0400.
Definition PROCESS_VM_READ : N := 0x0010.

(** The access rights [getProcessName] asks [OpenProcess] for. *)
Definition access : N := N.lor PROCESS_QUERY_INFORMATION PROCESS_VM_READ.

(** ** The operating system *)

(** The four native functions, over a world [W] that each call may change.
    - [EnumProcesses cb w]: the identifiers the OS has to report when asked
      with a buffer of [cb] bytes;
    - [OpenProcess access inherit pid w]: the handle (0 on failure);
    - [EnumProcessModules hProcess cb w]: the BOOL result as a byte and the
      module handle stored in [hMod[0]];
    - [K32GetModuleBaseNameA hProcess hModule nSize w]: the bytes stored
      into the name buffer.
    [sizeof_pointer] is [ref.sizeof.pointer] of the host. *)
Record Win32 (W : Type) : Type := {
  EnumProcesses : N -> W -> list DWord * W;
  OpenProcess : N -> N -> DWord -> W -> Handle * W;
  EnumProcessModules : Handle -> N -> W -> (N * Handle) * W;
  K32GetModuleBaseNameA : Handle -> Handle -> N -> W -> list byte * W;
  sizeof_pointer : N
}.

Arguments EnumProcesses {W} _ _ _.
Arguments OpenProcess {W} _ _ _ _ _.
Arguments EnumProcessModules {W} _ _ _ _.
Arguments K32GetModuleBaseNameA {W} _ _ _ _ _.
Arguments sizeof_pointer {W} _.

(** One entry of the log of native calls, with the arguments passed. *)
Inductive call : Type :=
| CallEnumProcesses (cb : N)
| CallOpenProcess (access inherit : N) (pid : DWord)
| CallEnumProcessModules (hProcess : Handle) (cb : N)
| CallGetModuleBaseNameA (hProcess hModule : Handle) (nSize : N).

(** The state the code runs in: the OS world, the native calls made so far
    (oldest first) and the handles obtained from [OpenProcess] that are
    still open. *)
Record state (W : Type) : Type := mkState {
  world : W;
  calls : list call;
  handles : list Handle
}.

Arguments mkState {W} _ _ _.
Arguments world {W} _.
Arguments calls {W} _.
Arguments handles {W} _.

(** ** Buffers and JavaScript values *)

(** A buffer after a native call stored [written] from its first cell on:
    the call cannot store more cells than the buffer has. *)
Definition overlay {A : Type} (written buf : list A) : list A :=
  firstn (List.length buf) written ++ skipn (List.length written) buf.

(** The bytes of a C string: everything before the first NUL. *)
Fixpoint until_nul (bs : list byte) : list byte :=
  match bs with
  | [] => []
  | b :: rest => if Byte.eqb b x00 then [] else b :: until_nul rest
  end.

(** [ref.readCString(buffer, 0)], one character per byte: the bytes up to
    the first NUL.  A buffer that holds no NUL is read to its end and no
    further. *)
Definition readCString (buffer : list byte) : string :=
  string_of_list_byte (until_nul buffer).

(** JavaScript truthiness of the three kinds of value the source tests. *)
Definition truthy_handle (h : Handle) : bool := negb (N.eqb h 0).
Definition truthy_byte (b : N) : bool := negb (N.eqb b 0).
Definition truthy_name (name : option string) : bool :=
  match name with
  | None => false
  | Some EmptyString => false
  | Some (String _ _) => true
  end.

(** What [next()] of a generator answers: [{value, done: false}] or
    [{done: true}]. *)
Inductive IteratorResult : Type :=
| Value (v : string)
| Done.

(** A [processNameIterator()] generator object between two [next()] calls:
    created and not yet entered, suspended at the [yield] of line 97 with
    its two locals, or finished. *)
Inductive generator : Type :=
| Start
| AtYield (processIDList : list DWord) (i : nat)
| Finished.

Section Code.

Context {W : Type} (os : Win32 W).

(** *** The native calls as the code sees them *)

(** [psapi.EnumProcesses(aProcesses, cb, cbNeeded)]: stores at most [cb]
    bytes of identifiers into [aProcesses] and the number of bytes stored
    into [cbNeeded]. *)
Definition psapi_EnumProcesses (aProcesses : list DWord) (cb : N)
    (s : state W) : (list DWord * N) * state W :=
  let (ids, w) := EnumProcesses os cb (world s) in
  let written := firstn (N.to_nat (cb / DWord_size)) ids in
  ((overlay written aProcesses, DWord_size * N.of_nat (List.length written))%N,
   mkState w (calls s ++ [CallEnumProcesses cb]) (handles s)).

(** [kernel32.OpenProcess(access, inherit, pid)]; a handle that is not
    NULL is open from now on. *)
Definition kernel32_OpenProcess (access inherit : N) (pid : DWord)
    (s : state W) : Handle * state W :=
  let (h, w) := OpenProcess os access inherit pid (world s) in
  (h, mkState w (calls s ++ [CallOpenProcess access inherit pid])
        (if truthy_handle h then handles s ++ [h] else handles s)).

(** [psapi.EnumProcessModules(hProcess, hMod, cb, cbNeeded)]. *)
Definition psapi_EnumProcessModules (hProcess : Handle) (cb : N)
    (s : state W) : (N * Handle) * state W :=
  let (r, w) := EnumProcessModules os hProcess cb (world s) in
  (r, mkState w (calls s ++ [CallEnumProcessModules hProcess cb]) (handles s)).

(** [kernel32.K32GetModuleBaseNameA(hProcess, hModule, buffer, nSize)]:
    stores at most [nSize] bytes into [buffer]; its result is not used. *)
Definition kernel32_K32GetModuleBaseNameA (hProcess hModule : Handle)
    (buffer : list byte) (nSize : N) (s : state W) : list byte * state W :=
  let (bs, w) := K32GetModuleBaseNameA os hProcess hModule nSize (world s) in
  (overlay (firstn (N.to_nat nSize) bs) buffer,
   mkState w (calls s ++ [CallGetModuleBaseNameA hProcess hModule nSize])
     (handles s)).

(** *** Lines 38-43 *)
Definition _retrieveNProcesses (n : N) (s : state W)
    : (list DWord * N) * state W :=
  let aProcesses := repeat 0%N (N.to_nat n) in
  let '((aProcesses, cbNeeded), s) :=
    psapi_EnumProcesses aProcesses (DWord_size * n) s in
  ((aProcesses, (cbNeeded / DWord_size)%N), s).

(** *** Lines 46-61

    The [do ... while] loop; [fuel] bounds the number of its iterations
    and [None] says that the loop has not left after that many. *)
Fixpoint getProcessIDList_loop (fuel : nat) (expectedProcessNum : N)
    (s : state W) : option (list DWord) * state W :=
  match fuel with
  | O => (None, s)
  | S fuel' =>
      let expectedProcessNum := (expectedProcessNum * 2)%N in
      let '((aProcesses, processNum), s) :=
        _retrieveNProcesses expectedProcessNum s in
      if N.eqb processNum expectedProcessNum
      then getProcessIDList_loop fuel' expectedProcessNum s
      else (Some (firstn (N.to_nat processNum) aProcesses), s)
  end.

Definition getProcessIDList (fuel : nat) (s : state W)
    : option (list DWord) * state W :=
  getProcessIDList_loop fuel (QUERY_SIZE / 2) s.

(** *** Lines 64-89; [None] is [undefined] *)
Definition getProcessName (pid : DWord) (s : state W)
    : option string * state W :=
  let (hProcess, s) :=
    kernel32_OpenProcess
      (N.lor PROCESS_QUERY_INFORMATION PROCESS_VM_READ) 0 pid s in
  if truthy_handle hProcess then
    let '((success, hMod0), s) :=
      psapi_EnumProcessModules hProcess (sizeof_pointer os) s in
    if truthy_byte success then
      let theStringBuffer := repeat x00 (N.to_nat MAX_PROCESS_NAME_LENGTH) in
      let (theStringBuffer, s) :=
        kernel32_K32GetModuleBaseNameA hProcess hMod0 theStringBuffer
          (N.of_nat (List.length theStringBuffer)) s in
      (Some (readCString theStringBuffer), s)
    else (None, s)
  else (None, s).

(** *** Lines 92-100

    The [for] loop of the generator from index [i] on, up to the next
    [yield] or the end of the body; [n] counts the identifiers left. *)
Fixpoint for_loop (n : nat) (processIDList : list DWord) (i : nat)
    (s : state W) : (IteratorResult * generator) * state W :=
  match n with
  | O => ((Done, Finished), s)
  | S n' =>
      match nth_error processIDList i with
      | None => ((Done, Finished), s)
      | Some pid =>
          let (name, s) := getProcessName pid s in
          if truthy_name name
          then ((Value (match name with Some v => v | None => EmptyString end),
                 AtYield processIDList i), s)
          else for_loop n' processIDList (S i) s
      end
  end.

(** [next()] on a generator: the first call enters the body and
    enumerates, a later call resumes after the [yield] with [i++]. *)
Definition next (fuel : nat) (g : generator) (s : state W)
    : option (IteratorResult * generator) * state W :=
  match g with
  | Start =>
      match getProcessIDList fuel s with
      | (None, s) => (None, s)
      | (Some processIDList, s) =>
          let (r, s) := for_loop (List.length processIDList) processIDList 0 s in
          (Some r, s)
      end
  | AtYield processIDList i =>
      let (r, s) :=
        for_loop (List.length processIDList - S i) processIDList (S i) s in
      (Some r, s)
  | Finished => (Some (Done, Finished), s)
  end.

Definition processNameIterator : generator := Start.

(** *** Lines 103-105: the spread [[...iterable]] *)
Fixpoint spread (fuel : nat)
    (nxt : generator -> state W
           -> option (IteratorResult * generator) * state W)
    (g : generator) (acc : list string) (s : state W)
    : option (list string) * state W :=
  match fuel with
  | O => (None, s)
  | S fuel' =>
      match nxt g s with
      | (None, s) => (None, s)
      | (Some (Value v, g), s) => spread fuel' nxt g (acc ++ [v]) s
      | (Some (Done, _), s) => (Some acc, s)
      end
  end.

Definition getProcessNameList (fuel : nat) (s : state W)
    : option (list string) * state W :=
  spread fuel (next fuel) processNameIterator [] s.

(** *** Lines 108-115: the [for ... of] loop with its early [return] *)
Fixpoint for_of (fuel : nat)
    (nxt : generator -> state W
           -> option (IteratorResult * generator) * state W)
    (processName : string) (g : generator) (s : state W)
    : option bool * state W :=
  match fuel with
  | O => (None, s)
  | S fuel' =>
      match nxt g s with
      | (None, s) => (None, s)
      | (Some (Value runningProcessName, g), s) =>
          if String.eqb runningProcessName processName
          then (Some true, s)
          else for_of fuel' nxt processName g s
      | (Some (Done, _), s) => (Some false, s)
      end
  end.

Definition checkProcessIsRunning (fuel : nat) (processName : string)
    (s : state W) : option bool * state W :=
  for_of fuel (next fuel) processName processNameIterator s.

End Code.

Arguments psapi_EnumProcesses {W} os aProcesses cb s.
Arguments getProcessIDList {W} os fuel s.
Arguments getProcessName {W} os pid s.
Arguments next {W} os fuel g s.
Arguments getProcessNameList {W} os fuel s.
Arguments checkProcessIsRunning {W} os fuel processName s.

(** ** Test doubles *)

(** How Windows stores a base name into a buffer of [nSize] characters:
    cut to [nSize - 1] characters and closed by a NUL. *)
Definition win32_name (base : list byte) (nSize : N) : list byte :=
  firstn (N.to_nat nSize - 1) base ++ [x00].

(** What a process of a fixture is like: it cannot be opened, it can be
    opened and has no module list, it has a first module whose base name
    cannot be fetched (nothing is stored), or it has a first module with a
    base name. *)
Inductive process : Type :=
| Denied
| NoModules
| Nameless
| Named (base : string).

Fixpoint lookup (pid : DWord) (table : list (DWord * process)) : option process :=
  match table with
  | [] => None
  | (p, e) :: rest => if N.eqb p pid then Some e else lookup pid rest
  end.

(** A fixture whose answers never change: the processes of [table], the
    handle of process [pid] being [4 * pid + 4]. *)
Definition fixture (table : list (DWord * process)) : Win32 unit := {|
  EnumProcesses := fun _ w => (map fst table, w);
  OpenProcess := fun _ _ pid w =>
    match lookup pid table with
    | Some NoModules | Some Nameless | Some (Named _) => (4 * pid + 4, w)%N
    | _ => (0%N, w)
    end;
  EnumProcessModules := fun h _ w =>
    match lookup (h / 4 - 1)%N table with
    | Some Nameless | Some (Named _) => ((1%N, 0x400000%N), w)
    | _ => ((0%N, 0%N), w)
    end;
  K32GetModuleBaseNameA := fun h _ nSize w =>
    match lookup (h / 4 - 1)%N table with
    | Some (Named base) => (win32_name (list_byte_of_string base) nSize, w)
    | _ => ([], w)
    end;
  sizeof_pointer := 8
|}.

(** The fixture of the specification's example scenario. *)
Definition scenario : Win32 unit :=
  fixture [(10%N, Named "alpha.exe"); (20%N, Denied); (30%N, Named "beta.exe")].

(** The state before any native call. *)
Definition boot {W : Type} (w : W) : state W := mkState w [] [].

(** The state of the scenario, and of any fixture with fewer than 2048
    processes, after the enumeration. *)
Definition enumerated : state unit := mkState tt [CallEnumProcesses 8192] [].

(** The state of the scenario after a run of the generator to its end. *)
Definition drained : state unit :=
  snd (getProcessNameList scenario 4 (boot tt)).

(** A host with one process, whose base name is longer than the buffer. *)
Definition longname : Win32 unit :=
  fixture [(7%N, Named "a_very_long_executable_base_name_indeed.exe")].

(** A host with one process, whose base name cannot be fetched. *)
Definition nameless : Win32 unit := fixture [(10%N, Nameless)].

(** A host with a process whose base name cannot be fetched and a named
    one. *)
Definition haunted : Win32 unit :=
  fixture [(10%N, Nameless); (30%N, Named "beta.exe")].

(** A host with a process that cannot be opened and one that has no
    module list. *)
Definition guarded : Win32 unit := fixture [(5%N, Denied); (6%N, NoModules)].

(** A host with [n] processes, none of which can be opened: identifiers
    1 to [n]. *)
Definition crowd (n : nat) : Win32 unit :=
  fixture (map (fun p => (N.of_nat p, Denied)) (seq 1 n)).


(** ** Reference notions the properties are stated with *)

(** [s] seen from [s0]: the calls and handles of [s] come after those of
    [s0]. *)
Definition onto {W : Type} (s0 s : state W) : state W :=
  mkState (world s) (calls s0 ++ calls s) (handles s0 ++ handles s).

(** [f] reads the world only: run from a state [s], it does what it does
    from [boot (world s)], with the calls and handles of [s] in front. *)
Definition framed {W A : Type} (f : state W -> A * state W) : Prop :=
  forall s, f s = (fst (f (boot (world s))), onto s (snd (f (boot (world s))))).

(** A resolution that is a name, empty or not, and not [undefined]. *)
Definition present (r : option string) : bool :=
  match r with
  | Some _ => true
  | None => false
  end.

(** The identifiers the resolver was called on, read off a log of native
    calls: every [getProcessName] starts with one [OpenProcess]. *)
Definition resolver_calls (cs : list call) : list DWord :=
  flat_map (fun c => match c with
                     | CallOpenProcess _ _ pid => [pid]
                     | _ => []
                     end) cs.

(** The names a generator hands out, given what each identifier resolved
    to: the truthy ones, in order. *)
Definition yielded (rs : list (option string)) : list string :=
  flat_map (fun r => match r with
                     | Some (String a v) => [String a v]
                     | _ => []
                     end) rs.

(** [r] is a resolution that [checkProcessIsRunning name] stops at. *)
Definition hit (name : string) (r : option string) : bool :=
  match r with
  | Some (String a v) => String.eqb (String a v) name
  | _ => false
  end.

(** How many resolutions happen up to and including the first hit (all
    of them when there is none). *)
Fixpoint cut (name : string) (rs : list (option string)) : nat :=
  match rs with
  | [] => 0
  | r :: rest => if hit name r then 1 else S (cut name rest)
  end.

Section Reference.

Context {W : Type} (os : Win32 W).

(** What a request of capacity [C] entries gets: the entries stored, the
    count reported back and the world it leaves. *)
Definition stored (C : N) (w : W) : list DWord :=
  firstn (N.to_nat C) (fst (EnumProcesses os (DWord_size * C) w)).
Definition returned (C : N) (w : W) : N := N.of_nat (List.length (stored C w)).
Definition after_request (C : N) (w : W) : W :=
  snd (EnumProcesses os (DWord_size * C) w).

(** [probes k C w ids w']: asked from world [w] with capacities [C],
    [2C], [4C], ..., the OS fills the first [k] buffers and then stores
    [ids], fewer than the capacity, leaving world [w']. *)
Inductive probes : nat -> N -> W -> list DWord -> W -> Prop :=
| probes_short : forall C w,
    (returned C w < C)%N ->
    probes 0 C w (stored C w) (after_request C w)
| probes_full : forall k C w ids w',
    returned C w = C ->
    probes k (C * 2) (after_request C w) ids w' ->
    probes (S k) C w ids w'.

(** The capacities of [n] successive requests that start at [C]. *)
Fixpoint requests (n : nat) (C : N) : list call :=
  match n with
  | O => []
  | S n' => CallEnumProcesses (DWord_size * C) :: requests n' (C * 2)
  end.

(** Resolving the identifiers of a list one after the other. *)
Fixpoint resolve_all (ids : list DWord) (s : state W)
    : list (option string) * state W :=
  match ids with
  | [] => ([], s)
  | pid :: rest =>
      let (r, s) := getProcessName os pid s in
      let (rs, s) := resolve_all rest s in
      (r :: rs, s)
  end.

(** Materializing a generator: the values of successive [next()] calls
    up to the first [{done: true}]. *)
Inductive drains (fuel : nat) : generator -> state W -> list string
                                -> state W -> Prop :=
| drains_done : forall g s g' s',
    next os fuel g s = (Some (Done, g'), s') ->
    drains fuel g s [] s'
| drains_value : forall g s v g' s1 vs s',
    next os fuel g s = (Some (Value v, g'), s1) ->
    drains fuel g' s1 vs s' ->
    drains fuel g s (v :: vs) s'.

End Reference.

Arguments probes {W} os _ _ _ _ _.
Arguments resolve_all {W} os ids s.
Arguments drains {W} os fuel _ _ _ _.

(** ** Buffers *)

Lemma overlay_length {A : Type} (written buf : list A) :
  List.length written <= List.length buf ->
  List.length (overlay written buf) = List.length buf.
Proof.
  intros Hle. unfold overlay.
  rewrite length_app, firstn_all2, length_skipn by exact Hle. lia.
Qed.

Lemma overlay_prefix {A : Type} (written buf : list A) :
  List.length written <= List.length buf ->
  firstn (List.length written) (overlay written buf) = written.
Proof.
  intros Hle. unfold overlay.
  rewrite (firstn_all2 written) by exact Hle.
  rewrite firstn_app, firstn_all, Nat.sub_diag. simpl.
  apply app_nil_r.
Qed.


Lemma overlay_zeroes {A : Type} (z : A) (written : list A) (n : nat) :
  List.length written <= n ->
  overlay written (repeat z n) = written ++ repeat z (n - List.length written).
Proof.
  intros Hle. unfold overlay. rewrite repeat_length.
  rewrite firstn_all2 by exact Hle. f_equal.
  replace n with (List.length written + (n - List.length written)) at 1 by lia.
  rewrite repeat_app, skipn_app, repeat_length, Nat.sub_diag.
  rewrite skipn_all2 by (rewrite repeat_length; lia). reflexivity.
Qed.

(** ** The enumerator *)

Section Enumerator.

Context {W : Type} (os : Win32 W).

Lemma stored_length (C : N) (w : W) :
  List.length (stored os C w) <= N.to_nat C.
Proof. unfold stored. rewrite length_firstn. lia. Qed.

Lemma returned_le (C : N) (w : W) : (returned os C w <= C)%N.
Proof. unfold returned. pose proof (stored_length C w). lia. Qed.

(** One call of [_retrieveNProcesses]: the buffer holds what the OS
    stored, followed by untouched cells, and the count is the number of
    entries stored. *)
Lemma _retrieveNProcesses_eq (n : N) (s : state W) :
  _retrieveNProcesses os n s =
    ((overlay (stored os n (world s)) (repeat 0%N (N.to_nat n)),
      returned os n (world s)),
     mkState (after_request os n (world s))
       (calls s ++ [CallEnumProcesses (DWord_size * n)]) (handles s)).
Proof.
  unfold _retrieveNProcesses, psapi_EnumProcesses, returned, stored,
    after_request.
  destruct (EnumProcesses os (DWord_size * n) (world s)) as [ids w].
  cbn [fst snd].
  replace (DWord_size * n / DWord_size)%N with n
    by (rewrite N.mul_comm, N.div_mul; [reflexivity | discriminate]).
  rewrite N.mul_comm, N.div_mul by discriminate.
  reflexivity.
Qed.

(** One iteration of the [do ... while] loop. *)
Lemma getProcessIDList_loop_step (fuel : nat) (C : N) (s : state W) :
  getProcessIDList_loop os (S fuel) C s =
    let s1 := mkState (after_request os (C * 2) (world s))
                (calls s ++ [CallEnumProcesses (DWord_size * (C * 2))])
                (handles s) in
    if N.eqb (returned os (C * 2) (world s)) (C * 2)
    then getProcessIDList_loop os fuel (C * 2) s1
    else (Some (stored os (C * 2) (world s)), s1).
Proof.
  cbn [getProcessIDList_loop]. rewrite _retrieveNProcesses_eq. cbv zeta.
  destruct (N.eqb (returned os (C * 2) (world s)) (C * 2)); [reflexivity|].
  do 2 f_equal. unfold returned. rewrite Nat2N.id.
  apply overlay_prefix. rewrite repeat_length. apply stored_length.
Qed.

Lemma requests_length (n : nat) (C : N) : List.length (requests n C) = n.
Proof. revert C. induction n; intros C; simpl; [|rewrite IHn]; reflexivity. Qed.

(** The loop leaves with [ids] exactly when the OS filled some number
    [k] of buffers and then stored [ids], fewer than asked for. *)
Lemma getProcessIDList_loop_probes (fuel : nat) :
  forall (C : N) (s : state W) (ids : list DWord) (s' : state W),
    getProcessIDList_loop os fuel C s = (Some ids, s') <->
    exists k, k < fuel /\
      probes os k (C * 2) (world s) ids (world s') /\
      calls s' = calls s ++ requests (S k) (C * 2) /\
      handles s' = handles s.
Proof.
  induction fuel as [|fuel IH]; intros C s ids s'.
  - simpl. split; [discriminate | intros (k & Hk & _); lia].
  - rewrite getProcessIDList_loop_step. cbv zeta.
    destruct (N.eqb_spec (returned os (C * 2) (world s)) (C * 2)) as [Hfull|Hshort].
    + rewrite IH. cbn [world calls handles]. split.
      * intros (k & Hk & Hp & Hc & Hh). exists (S k).
        repeat split; [lia | now apply probes_full | | exact Hh].
        rewrite Hc, <- app_assoc. reflexivity.
      * intros (k & Hk & Hp & Hc & Hh).
        inversion Hp; subst; [lia|].
        exists k0. repeat split; [lia | assumption | | exact Hh].
        rewrite Hc, <- app_assoc. reflexivity.
    + split.
      * intros H. inversion H; subst; clear H. exists 0.
        cbn [world calls handles requests].
        repeat split; [lia|].
        apply probes_short. pose proof (returned_le (C * 2) (world s)). lia.
      * intros (k & Hk & Hp & Hc & Hh).
        inversion Hp; subst; [|contradiction].
        destruct s' as [w' c' h']. cbn [world calls handles] in *.
        subst. reflexivity.
Qed.

(** Once the loop has left, more fuel changes nothing. *)
Lemma getProcessIDList_more_fuel (f fuel : nat) (s : state W)
    (ids : list DWord) (s' : state W) :
  getProcessIDList os f s = (Some ids, s') -> f <= fuel ->
  getProcessIDList os fuel s = (Some ids, s').
Proof.
  unfold getProcessIDList. rewrite !getProcessIDList_loop_probes.
  intros (k & Hk & H) Hle. exists k. split; [lia | exact H].
Qed.

End Enumerator.

(** ** Strings *)

Lemma string_of_list_byte_length (bs : list byte) :
  String.length (string_of_list_byte bs) = List.length bs.
Proof.
  unfold string_of_list_byte.
  induction bs as [|b bs IH]; cbn [map string_of_list_ascii String.length];
    [|rewrite IH]; reflexivity.
Qed.

Lemma until_nul_length (bs : list byte) :
  List.length (until_nul bs) <= List.length bs.
Proof.
  induction bs as [|b bs IH]; simpl; [lia|].
  destruct (Byte.eqb b x00); simpl; lia.
Qed.



(** ** The resolver *)

Lemma onto_onto {W : Type} (s0 s1 s2 : state W) :
  onto (onto s0 s1) s2 = onto s0 (onto s1 s2).
Proof. unfold onto. cbn [world calls handles]. now rewrite !app_assoc. Qed.

Lemma onto_boot {W : Type} (s : state W) : onto (boot (world s)) s = s.
Proof. destruct s. reflexivity. Qed.

Section Resolver.

Context {W : Type} (os : Win32 W).




(** What [getProcessName] does to the state does not depend on the calls
    and handles the state already holds. *)
Lemma getProcessName_frame (pid : DWord) (s : state W) :
  getProcessName os pid s =
    (fst (getProcessName os pid (boot (world s))),
     onto s (snd (getProcessName os pid (boot (world s))))).
Proof.
  unfold getProcessName, kernel32_OpenProcess, psapi_EnumProcessModules,
    kernel32_K32GetModuleBaseNameA, onto, boot.
  cbn [world calls handles].
  destruct (OpenProcess os _ 0 pid (world s)) as [h w1].
  destruct (truthy_handle h); cbn [world calls handles fst snd app];
    [|now rewrite app_nil_r].
  destruct (EnumProcessModules os h (sizeof_pointer os) w1) as [[ok m] w2].
  destruct (truthy_byte ok); cbn [world calls handles fst snd app];
    [|now rewrite <- app_assoc].
  destruct (K32GetModuleBaseNameA os h m _ w2) as [bs w3].
  cbn [world calls handles fst snd app]. now rewrite <- !app_assoc.
Qed.

(** A name comes out of the 32 bytes of the buffer. *)
Lemma getProcessName_within_buffer (pid : DWord) (s : state W) (name : string) :
  fst (getProcessName os pid s) = Some name ->
  String.length name <= N.to_nat MAX_PROCESS_NAME_LENGTH.
Proof.
  unfold getProcessName, kernel32_OpenProcess, psapi_EnumProcessModules,
    kernel32_K32GetModuleBaseNameA.
  generalize (N.to_nat MAX_PROCESS_NAME_LENGTH) as cap. intros cap.
  destruct (OpenProcess os _ 0 pid (world s)) as [h w1].
  destruct (truthy_handle h); [|discriminate].
  cbn [world calls handles].
  destruct (EnumProcessModules os h (sizeof_pointer os) w1) as [[ok m] w2].
  destruct (truthy_byte ok); [|discriminate].
  cbn [world calls handles].
  destruct (K32GetModuleBaseNameA os h m _ w2) as [bs w3].
  cbn [fst]. intros H. injection H as <-.
  unfold readCString. rewrite string_of_list_byte_length.
  etransitivity; [apply until_nul_length|].
  rewrite overlay_length; rewrite repeat_length; [reflexivity|].
  rewrite length_firstn, Nat2N.id. lia.
Qed.

End Resolver.

(** ** Frame: the code reads the world only *)

Lemma framed_same_world {W A : Type} (f : state W -> A * state W)
    (s t : state W) :
  framed f -> world s = world t ->
  fst (f s) = fst (f t) /\
  world (snd (f s)) = world (snd (f t)) /\
  exists made opened,
    calls (snd (f s)) = calls s ++ made /\ calls (snd (f t)) = calls t ++ made /\
    handles (snd (f s)) = handles s ++ opened /\
    handles (snd (f t)) = handles t ++ opened.
Proof.
  intros Hf Hw. rewrite (Hf s), (Hf t), Hw. cbn [fst snd onto world calls handles].
  repeat split.
  exists (calls (snd (f (boot (world t))))), (handles (snd (f (boot (world t))))).
  repeat split.
Qed.

Section Frame.

Context {W : Type} (os : Win32 W).

Lemma getProcessIDList_loop_framed (fuel : nat) :
  forall C, framed (getProcessIDList_loop os fuel C).
Proof.
  induction fuel as [|fuel IH]; intros C s.
  - cbn. unfold onto, boot. cbn. rewrite !app_nil_r. now destruct s.
  - rewrite !getProcessIDList_loop_step. cbv zeta. cbn [world calls handles boot].
    destruct (N.eqb (returned os (C * 2) (world s)) (C * 2)).
    + rewrite (IH (C * 2)%N). cbn [world].
      rewrite (IH (C * 2)%N (mkState _ ([] ++ _) [])). cbn [world fst snd].
      f_equal. unfold onto. cbn [world calls handles app].
      now rewrite <- app_assoc.
    + cbn [fst snd]. unfold onto. cbn [world calls handles app].
      now rewrite app_nil_r.
Qed.

Lemma getProcessIDList_framed (fuel : nat) : framed (getProcessIDList os fuel).
Proof. apply getProcessIDList_loop_framed. Qed.

Lemma resolve_all_framed (ids : list DWord) : framed (resolve_all os ids).
Proof.
  induction ids as [|pid rest IH]; intros s.
  - cbn. unfold onto, boot. cbn. rewrite !app_nil_r. now destruct s.
  - cbn [resolve_all]. rewrite (getProcessName_frame os pid s).
    destruct (getProcessName os pid (boot (world s))) as [r s1].
    cbn [fst snd]. rewrite (IH (onto s s1)), (IH s1). cbn [world onto].
    destruct (resolve_all os rest (boot (world s1))) as [rs s2].
    cbn [fst snd]. now rewrite <- onto_onto.
Qed.

Lemma for_loop_framed (n : nat) :
  forall ids i, framed (for_loop os n ids i).
Proof.
  induction n as [|n IH]; intros ids i s.
  - cbn. unfold onto, boot. cbn. rewrite !app_nil_r. now destruct s.
  - cbn [for_loop]. destruct (nth_error ids i) as [pid|].
    + rewrite (getProcessName_frame os pid s).
      destruct (getProcessName os pid (boot (world s))) as [r s1].
      cbn [fst snd]. destruct (truthy_name r); [reflexivity|].
      rewrite (IH ids (S i) (onto s s1)), (IH ids (S i) s1). cbn [world onto].
      cbn [fst snd]. now rewrite <- onto_onto.
    + cbn. unfold onto, boot. cbn. rewrite !app_nil_r. now destruct s.
Qed.

Lemma next_framed (fuel : nat) (g : generator) : framed (next os fuel g).
Proof.
  intros s. destruct g as [|ids i|]; cbn [next].
  - rewrite (getProcessIDList_framed fuel s).
    destruct (getProcessIDList os fuel (boot (world s))) as [[ids|] s1];
      cbn [fst snd]; [|reflexivity].
    rewrite (for_loop_framed _ ids 0 (onto s s1)), (for_loop_framed _ ids 0 s1).
    cbn [world onto fst snd]. now rewrite <- onto_onto.
  - rewrite (for_loop_framed _ ids (S i) s).
    destruct (for_loop os _ ids (S i) (boot (world s))) as [r s1]. reflexivity.
  - cbn. unfold onto, boot. cbn. rewrite !app_nil_r. now destruct s.
Qed.

Lemma spread_framed (fuel : nat)
    (nxt : generator -> state W
           -> option (IteratorResult * generator) * state W) :
  (forall g, framed (nxt g)) ->
  forall g acc, framed (spread fuel nxt g acc).
Proof.
  intros Hnxt. induction fuel as [|fuel IH]; intros g acc s.
  - cbn. unfold onto, boot. cbn. rewrite !app_nil_r. now destruct s.
  - cbn [spread]. rewrite (Hnxt g s).
    destruct (nxt g (boot (world s))) as [[[[v|] g']|] s1]; cbn [fst snd];
      try reflexivity.
    rewrite (IH g' (acc ++ [v]) (onto s s1)), (IH g' (acc ++ [v]) s1).
    cbn [world onto fst snd]. now rewrite <- onto_onto.
Qed.

Lemma for_of_framed (fuel : nat)
    (nxt : generator -> state W
           -> option (IteratorResult * generator) * state W)
    (name : string) :
  (forall g, framed (nxt g)) ->
  forall g, framed (for_of fuel nxt name g).
Proof.
  intros Hnxt. induction fuel as [|fuel IH]; intros g s.
  - cbn. unfold onto, boot. cbn. rewrite !app_nil_r. now destruct s.
  - cbn [for_of]. rewrite (Hnxt g s).
    destruct (nxt g (boot (world s))) as [[[[v|] g']|] s1]; cbn [fst snd];
      try reflexivity.
    destruct (String.eqb v name); [reflexivity|].
    rewrite (IH g' (onto s s1)), (IH g' s1).
    cbn [world onto fst snd]. now rewrite <- onto_onto.
Qed.

Lemma getProcessNameList_framed (fuel : nat) :
  framed (getProcessNameList os fuel).
Proof. apply spread_framed. intros g. apply next_framed. Qed.

Lemma checkProcessIsRunning_framed (fuel : nat) (name : string) :
  framed (checkProcessIsRunning os fuel name).
Proof. apply for_of_framed. intros g. apply next_framed. Qed.

End Frame.

(** ** The generator and its consumers *)

Lemma skipn_cons_inv {A : Type} (i : nat) :
  forall (l : list A) (x : A) (rest : list A),
    skipn i l = x :: rest ->
    nth_error l i = Some x /\ skipn (S i) l = rest /\
    List.length l - i = S (List.length l - S i).
Proof.
  induction i as [|i IH]; intros [|y l] x rest H; try discriminate.
  - cbn in H. injection H as -> ->. cbn. repeat split. lia.
  - cbn [skipn] in H. destruct (IH l x rest H) as (Hn & Hs & Hl).
    repeat split; [exact Hn | exact Hs | cbn [List.length]; lia].
Qed.

Lemma skipn_nil_inv {A : Type} (i : nat) (l : list A) :
  skipn i l = [] -> List.length l - i = 0.
Proof. intros H. rewrite <- length_skipn, H. reflexivity. Qed.

Lemma yielded_app (rs1 rs2 : list (option string)) :
  yielded (rs1 ++ rs2) = yielded rs1 ++ yielded rs2.
Proof. apply flat_map_app. Qed.

Lemma truthy_name_inv (r : option string) :
  truthy_name r = true -> exists a v, r = Some (String a v).
Proof. destruct r as [[|a v]|]; try discriminate. intros _. now exists a, v. Qed.

Lemma yielded_falsy (r : option string) (rs : list (option string)) :
  truthy_name r = false -> yielded (r :: rs) = yielded rs /\ forall name, hit name r = false.
Proof. destruct r as [[|a v]|]; try discriminate; intros _; split; reflexivity. Qed.

Section Consumers.

Context {W : Type} (os : Win32 W).

(** Draining a generator that stands in front of the identifiers [rest]
    resolves them all and collects the truthy names. *)
Lemma spread_from (e : nat) :
  forall (rest ids : list DWord) (i : nat) (acc : list string) (s : state W)
         (fuel : nat) r g s1,
    skipn i ids = rest ->
    List.length (yielded (fst (resolve_all os rest s))) <= fuel ->
    for_loop os (List.length ids - i) ids i s = ((r, g), s1) ->
    match r with
    | Value v => spread fuel (next os e) g (acc ++ [v]) s1
    | Done => (Some acc, s1)
    end = (Some (acc ++ yielded (fst (resolve_all os rest s))),
           snd (resolve_all os rest s)).
Proof.
  induction rest as [|pid rest IH]; intros ids i acc s fuel r g s1 Hskip Hfuel Hloop.
  - rewrite (skipn_nil_inv _ _ Hskip) in Hloop. cbn in Hloop.
    injection Hloop as <- <- <-. cbn. now rewrite app_nil_r.
  - destruct (skipn_cons_inv _ _ _ _ Hskip) as (Hnth & Hskip' & Hlen).
    rewrite Hlen in Hloop. cbn [for_loop] in Hloop. rewrite Hnth in Hloop.
    cbn [resolve_all] in Hfuel |- *.
    destruct (getProcessName os pid s) as [r0 s0].
    destruct (resolve_all os rest s0) as [rs s2] eqn:Hrs.
    cbn [fst snd] in Hfuel |- *.
    destruct (truthy_name r0) eqn:Ht.
    + destruct (truthy_name_inv _ Ht) as (a & v & ->).
      injection Hloop as <- <- <-.
      cbn [yielded flat_map app List.length] in Hfuel |- *.
      destruct fuel as [|fuel]; [lia|].
      cbn [spread next].
      destruct (for_loop os (List.length ids - S i) ids (S i) s0)
        as [[r' g'] s'] eqn:Hloop'.
      specialize (IH ids (S i) (acc ++ [String a v]) s0 fuel r' g' s' Hskip').
      rewrite Hrs in IH. cbn [fst snd] in IH.
      fold (yielded rs) in Hfuel |- *.
      specialize (IH ltac:(lia) Hloop').
      destruct r'; rewrite IH, <- app_assoc; reflexivity.
    + destruct (yielded_falsy r0 rs Ht) as [Hy _]. rewrite Hy in Hfuel |- *.
      specialize (IH ids (S i) acc s0 fuel r g s1 Hskip').
      rewrite Hrs in IH. cbn [fst snd] in IH. now apply IH.
Qed.

(** Searching a generator that stands in front of the identifiers [rest]
    resolves them up to the first hit and no further. *)
Lemma for_of_from (e : nat) (name : string) :
  forall (rest ids : list DWord) (i : nat) (s : state W) (fuel : nat) r g s1,
    skipn i ids = rest ->
    List.length (yielded (fst (resolve_all os rest s))) <= fuel ->
    for_loop os (List.length ids - i) ids i s = ((r, g), s1) ->
    match r with
    | Value v => if String.eqb v name then (Some true, s1)
                 else for_of fuel (next os e) name g s1
    | Done => (Some false, s1)
    end = (Some (existsb (hit name) (fst (resolve_all os rest s))),
           snd (resolve_all os
                  (firstn (cut name (fst (resolve_all os rest s))) rest) s)).
Proof.
  induction rest as [|pid rest IH]; intros ids i s fuel r g s1 Hskip Hfuel Hloop.
  - rewrite (skipn_nil_inv _ _ Hskip) in Hloop. cbn in Hloop.
    injection Hloop as <- <- <-. reflexivity.
  - destruct (skipn_cons_inv _ _ _ _ Hskip) as (Hnth & Hskip' & Hlen).
    rewrite Hlen in Hloop. cbn [for_loop] in Hloop. rewrite Hnth in Hloop.
    cbn [resolve_all] in Hfuel |- *.
    destruct (getProcessName os pid s) as [r0 s0] eqn:Hname.
    destruct (resolve_all os rest s0) as [rs s2] eqn:Hrs.
    cbn [fst snd existsb cut] in Hfuel |- *.
    destruct (truthy_name r0) eqn:Ht.
    + destruct (truthy_name_inv _ Ht) as (a & v & ->).
      injection Hloop as <- <- <-. cbn [hit].
      destruct (String.eqb (String a v) name).
      * cbn [orb firstn resolve_all]. rewrite Hname. reflexivity.
      * cbn [orb firstn resolve_all]. rewrite Hname.
        cbn [yielded flat_map app List.length] in Hfuel.
        fold (yielded rs) in Hfuel.
        destruct fuel as [|fuel]; [lia|].
        cbn [for_of next].
        destruct (for_loop os (List.length ids - S i) ids (S i) s0)
          as [[r' g'] s'] eqn:Hloop'.
        specialize (IH ids (S i) s0 fuel r' g' s' Hskip').
        rewrite Hrs in IH. cbn [fst snd] in IH.
        specialize (IH ltac:(lia) Hloop').
        destruct (resolve_all os (firstn (cut name rs) rest) s0) as [rs' s3].
        cbn [snd] in IH |- *. destruct r'; exact IH.
    + destruct (yielded_falsy r0 rs Ht) as [Hy Hh]. rewrite Hy in Hfuel.
      rewrite Hh. cbn [orb firstn resolve_all]. rewrite Hname.
      specialize (IH ids (S i) s0 fuel r g s1 Hskip').
      rewrite Hrs in IH. cbn [fst snd] in IH.
      specialize (IH Hfuel Hloop).
      destruct (resolve_all os (firstn (cut name rs) rest) s0) as [rs' s3].
      exact IH.
Qed.

End Consumers.

Section Closed.

Context {W : Type} (os : Win32 W).

(** [getProcessNameList] in closed form: enumerate, resolve every
    identifier in order, keep the truthy names. *)
Lemma getProcessNameList_closed (f fuel : nat) (s : state W)
    (ids : list DWord) (s1 : state W) :
  getProcessIDList os f s = (Some ids, s1) -> f <= fuel ->
  List.length (yielded (fst (resolve_all os ids s1))) < fuel ->
  getProcessNameList os fuel s =
    (Some (yielded (fst (resolve_all os ids s1))),
     snd (resolve_all os ids s1)).
Proof.
  intros Henum Hle Hfuel. unfold getProcessNameList, processNameIterator.
  destruct fuel as [|fuel']; [lia|].
  cbn [spread next].
  rewrite (getProcessIDList_more_fuel os f (S fuel') s ids s1 Henum Hle).
  destruct (for_loop os (List.length ids) ids 0 s1) as [[r g] s2] eqn:Hloop.
  rewrite <- (Nat.sub_0_r (List.length ids)) in Hloop.
  pose proof (spread_from os (S fuel') ids ids 0 [] s1 fuel' r g s2
                eq_refl ltac:(lia) Hloop) as H.
  destruct r; exact H.
Qed.

(** [checkProcessIsRunning] in closed form: enumerate, resolve up to the
    first hit. *)
Lemma checkProcessIsRunning_closed (f fuel : nat) (name : string)
    (s : state W) (ids : list DWord) (s1 : state W) :
  getProcessIDList os f s = (Some ids, s1) -> f <= fuel ->
  List.length (yielded (fst (resolve_all os ids s1))) < fuel ->
  checkProcessIsRunning os fuel name s =
    (Some (existsb (hit name) (fst (resolve_all os ids s1))),
     snd (resolve_all os
            (firstn (cut name (fst (resolve_all os ids s1))) ids) s1)).
Proof.
  intros Henum Hle Hfuel. unfold checkProcessIsRunning, processNameIterator.
  destruct fuel as [|fuel']; [lia|].
  cbn [for_of next].
  rewrite (getProcessIDList_more_fuel os f (S fuel') s ids s1 Henum Hle).
  destruct (for_loop os (List.length ids) ids 0 s1) as [[r g] s2] eqn:Hloop.
  rewrite <- (Nat.sub_0_r (List.length ids)) in Hloop.
  pose proof (for_of_from os (S fuel') name ids ids 0 s1 fuel' r g s2
                eq_refl ltac:(lia) Hloop) as H.
  destruct r; exact H.
Qed.

Lemma resolve_all_length (ids : list DWord) :
  forall s, List.length (fst (resolve_all os ids s)) = List.length ids.
Proof.
  induction ids as [|pid rest IH]; intros s; [reflexivity|].
  cbn [resolve_all]. destruct (getProcessName os pid s) as [r s0].
  specialize (IH s0). destruct (resolve_all os rest s0) as [rs s2].
  cbn [fst List.length] in *. now rewrite IH.
Qed.

Lemma resolver_calls_app (c1 c2 : list call) :
  resolver_calls (c1 ++ c2) = resolver_calls c1 ++ resolver_calls c2.
Proof. apply flat_map_app. Qed.

Lemma resolver_calls_requests (n : nat) :
  forall C, resolver_calls (requests n C) = [].
Proof. induction n as [|n IH]; intros C; cbn; [|rewrite IH]; reflexivity. Qed.

(** Every call of the resolver shows in the log as one [OpenProcess]. *)
Lemma getProcessName_resolver_calls (pid : DWord) (s : state W) :
  resolver_calls (calls (snd (getProcessName os pid s))) =
    resolver_calls (calls s) ++ [pid].
Proof.
  unfold getProcessName, kernel32_OpenProcess, psapi_EnumProcessModules,
    kernel32_K32GetModuleBaseNameA.
  destruct (OpenProcess os _ 0 pid (world s)) as [h w1].
  destruct (truthy_handle h); cbn [world calls handles snd];
    [|now rewrite resolver_calls_app].
  destruct (EnumProcessModules os h (sizeof_pointer os) w1) as [[ok m] w2].
  destruct (truthy_byte ok); cbn [world calls handles snd].
  - destruct (K32GetModuleBaseNameA os h m _ w2) as [bs w3].
    cbn [world calls handles snd].
    rewrite !resolver_calls_app. cbn. now rewrite !app_nil_r.
  - rewrite !resolver_calls_app. cbn. now rewrite !app_nil_r.
Qed.

Lemma resolve_all_resolver_calls (ids : list DWord) :
  forall s, resolver_calls (calls (snd (resolve_all os ids s))) =
            resolver_calls (calls s) ++ ids.
Proof.
  induction ids as [|pid rest IH]; intros s.
  - cbn. now rewrite app_nil_r.
  - cbn [resolve_all].
    pose proof (getProcessName_resolver_calls pid s) as Hone.
    destruct (getProcessName os pid s) as [r s0].
    specialize (IH s0). destruct (resolve_all os rest s0) as [rs s2].
    cbn [snd] in *. rewrite IH, Hone, <- app_assoc. reflexivity.
Qed.

Lemma yielded_length (rs : list (option string)) :
  List.length (yielded rs) <= List.length rs.
Proof.
  induction rs as [|r rs IH]; [reflexivity|].
  destruct r as [[|a v]|]; cbn [yielded flat_map app List.length] in *;
    fold (yielded rs); lia.
Qed.

Lemma yielded_filter (rs : list (option string)) :
  map Some (yielded rs) = filter truthy_name rs.
Proof.
  induction rs as [|r rs IH]; [reflexivity|].
  destruct r as [[|a v]|];
    cbn [yielded flat_map app map filter truthy_name];
    fold (yielded rs); rewrite ?IH; reflexivity.
Qed.

Lemma yielded_nonempty (rs : list (option string)) :
  Forall (fun v => v <> EmptyString) (yielded rs).
Proof.
  induction rs as [|r rs IH]; [constructor|].
  destruct r as [[|a v]|]; cbn [yielded flat_map app];
    fold (yielded rs); try assumption.
  constructor; [discriminate | assumption].
Qed.

Lemma existsb_hit (name : string) (rs : list (option string)) :
  existsb (hit name) rs = true <-> In name (yielded rs).
Proof.
  induction rs as [|r rs IH]; [split; [discriminate | contradiction]|].
  destruct r as [[|a v]|];
    cbn [existsb hit yielded flat_map app orb In]; fold (yielded rs);
    try exact IH.
  rewrite orb_true_iff, IH, String.eqb_eq. reflexivity.
Qed.

End Closed.

Section Materialize.

Context {W : Type} (os : Win32 W).

Lemma next_more_fuel (e e' : nat) (g : generator) (s : state W) r (s' : state W) :
  next os e g s = (Some r, s') -> e <= e' -> next os e' g s = (Some r, s').
Proof.
  destruct g as [|ids i|]; cbn [next]; intros H Hle; try exact H.
  destruct (getProcessIDList os e s) as [[ids|] s1] eqn:Henum; [|discriminate].
  now rewrite (getProcessIDList_more_fuel os e e' s ids s1 Henum Hle).
Qed.

Lemma drains_more_fuel (e e' : nat) (g : generator) (s : state W)
    (vs : list string) (s' : state W) :
  drains os e g s vs s' -> e <= e' -> drains os e' g s vs s'.
Proof.
  intros Hd Hle. induction Hd as [g s g' s' Hn | g s v g' s1 vs s' Hn _ IH].
  - eapply drains_done. eapply next_more_fuel; eassumption.
  - eapply drains_value; [eapply next_more_fuel; eassumption | exact IH].
Qed.

(** What the spread collects is what successive [next()] calls give. *)
Lemma spread_drains (e fuel : nat) :
  forall g acc (s : state W) l s',
    spread fuel (next os e) g acc s = (Some l, s') ->
    exists vs, l = acc ++ vs /\ drains os e g s vs s'.
Proof.
  induction fuel as [|fuel IH]; intros g acc s l s' H; [discriminate|].
  cbn [spread] in H.
  destruct (next os e g s) as [[[[v|] g']|] s1] eqn:Hn; [| |discriminate].
  - destruct (IH g' (acc ++ [v]) s1 l s' H) as (vs & -> & Hd).
    exists (v :: vs). split; [now rewrite <- app_assoc|].
    eapply drains_value; eassumption.
  - injection H as <- <-. exists []. split; [now rewrite app_nil_r|].
    eapply drains_done; eassumption.
Qed.

Lemma drains_spread (e : nat) (g : generator) (s : state W)
    (vs : list string) (s' : state W) :
  drains os e g s vs s' ->
  forall fuel acc, List.length vs < fuel ->
    spread fuel (next os e) g acc s = (Some (acc ++ vs), s').
Proof.
  intros Hd. induction Hd as [g s g' s' Hn | g s v g' s1 vs s' Hn _ IH];
    intros fuel acc Hfuel; (destruct fuel as [|fuel]; [cbn in Hfuel; lia|]);
    cbn [spread]; rewrite Hn.
  - now rewrite app_nil_r.
  - rewrite IH by (cbn in Hfuel; lia). now rewrite <- app_assoc.
Qed.

(** The generator never hands out the empty string. *)
Lemma for_loop_value (n : nat) :
  forall ids i (s : state W) v g s',
    for_loop os n ids i s = ((Value v, g), s') -> v <> EmptyString.
Proof.
  induction n as [|n IH]; intros ids i s v g s' H; [discriminate|].
  cbn [for_loop] in H. destruct (nth_error ids i) as [pid|]; [|discriminate].
  destruct (getProcessName os pid s) as [r s0].
  destruct (truthy_name r) eqn:Ht; [|eapply IH; eassumption].
  destruct (truthy_name_inv _ Ht) as (a & u & ->).
  injection H as <- _ _. discriminate.
Qed.

Lemma next_value (e : nat) (g : generator) (s : state W) v g' s' :
  next os e g s = (Some (Value v, g'), s') -> v <> EmptyString.
Proof.
  destruct g as [|ids i|]; cbn [next]; intros H; [| |discriminate].
  - destruct (getProcessIDList os e s) as [[ids|] s1]; [|discriminate].
    destruct (for_loop os _ ids 0 s1) as [[r g0] s2] eqn:Hloop.
    injection H as -> -> ->. eapply for_loop_value; eassumption.
  - destruct (for_loop os _ ids (S i) s) as [[r g0] s2] eqn:Hloop.
    injection H as -> -> ->. eapply for_loop_value; eassumption.
Qed.

Lemma spread_nonempty (e fuel : nat) :
  forall g acc (s : state W) l s',
    spread fuel (next os e) g acc s = (Some l, s') ->
    Forall (fun v => v <> EmptyString) acc ->
    Forall (fun v => v <> EmptyString) l.
Proof.
  induction fuel as [|fuel IH]; intros g acc s l s' H Hacc; [discriminate|].
  cbn [spread] in H.
  destruct (next os e g s) as [[[[v|] g']|] s1] eqn:Hn; [| |discriminate].
  - eapply IH; [exact H|]. apply Forall_app. split; [exact Hacc|].
    constructor; [|constructor]. eapply next_value; eassumption.
  - now injection H as <- <-.
Qed.

(** Looking for the empty string takes the generator to its end, as the
    spread does, and finds nothing. *)
Lemma spread_for_of_empty (e fuel : nat) :
  forall g acc (s : state W) l s',
    spread fuel (next os e) g acc s = (Some l, s') ->
    for_of fuel (next os e) EmptyString g s = (Some false, s').
Proof.
  induction fuel as [|fuel IH]; intros g acc s l s' H; [discriminate|].
  cbn [spread] in H. cbn [for_of].
  destruct (next os e g s) as [[[[v|] g']|] s1] eqn:Hn; [| |discriminate].
  - pose proof (next_value _ _ _ _ _ _ Hn) as Hv.
    apply String.eqb_neq in Hv. rewrite Hv. eapply IH; eassumption.
  - now injection H as _ <-.
Qed.

(** A resolution that is not truthy, absent or empty alike, makes the
    [for] loop go on to the next identifier. *)
Lemma for_loop_skip (n : nat) (ids : list DWord) (i : nat) (pid : DWord)
    (s : state W) :
  nth_error ids i = Some pid ->
  truthy_name (fst (getProcessName os pid s)) = false ->
  for_loop os (S n) ids i s =
    for_loop os n ids (S i) (snd (getProcessName os pid s)).
Proof.
  intros Hnth Ht. cbn [for_loop]. rewrite Hnth.
  destruct (getProcessName os pid s) as [r s0]. cbn [fst snd] in *.
  now rewrite Ht.
Qed.


End Materialize.


Lemma framed_calls {W A : Type} (f : state W -> A * state W) (s : state W) :
  framed f -> exists made, calls (snd (f s)) = calls s ++ made.
Proof.
  intros Hf. rewrite (Hf s). cbn [snd onto calls]. eexists. reflexivity.
Qed.

Lemma present_truthy (rs : list (option string)) :
  List.length (filter truthy_name rs) <= List.length (filter present rs).
Proof.
  induction rs as [|r rs IH]; [reflexivity|].
  destruct r as [[|a v]|]; cbn [filter truthy_name present List.length]; lia.
Qed.

Section Restart.

Context {W : Type} (os : Win32 W).

Lemma drains_calls (e : nat) (g : generator) (s : state W)
    (vs : list string) (s' : state W) :
  drains os e g s vs s' -> exists made, calls s' = calls s ++ made.
Proof.
  intros Hd. induction Hd as [g s g' s' Hn | g s v g' s1 vs s' Hn _ IH].
  - destruct (framed_calls (next os e g) s (next_framed os e g)) as [c Hc].
    rewrite Hn in Hc. now exists c.
  - destruct (framed_calls (next os e g) s (next_framed os e g)) as [c Hc].
    rewrite Hn in Hc. cbn [snd] in Hc. destruct IH as [c' Hc'].
    exists (c ++ c'). now rewrite Hc', Hc, app_assoc.
Qed.

(** [next()] on a fresh generator starts with an enumeration. *)
Lemma next_Start_requests (e : nat) (s : state W) r (s' : state W) :
  next os e Start s = (Some r, s') ->
  exists k rest, calls s' = calls s ++ requests (S k) QUERY_SIZE ++ rest.
Proof.
  cbn [next]. intros H.
  destruct (getProcessIDList os e s) as [[ids|] s1] eqn:Henum; [|discriminate].
  unfold getProcessIDList in Henum.
  apply getProcessIDList_loop_probes in Henum.
  destruct Henum as (k & _ & _ & Hc & _).
  destruct (framed_calls (for_loop os (List.length ids) ids 0) s1
              (for_loop_framed os _ ids 0)) as [c Hloop].
  destruct (for_loop os (List.length ids) ids 0 s1) as [r0 s2].
  injection H as _ <-. cbn [snd] in Hloop.
  exists k, c. now rewrite Hloop, Hc, <- app_assoc.
Qed.

Lemma drains_Start_requests (e : nat) (s : state W)
    (vs : list string) (s' : state W) :
  drains os e Start s vs s' ->
  exists k rest, calls s' = calls s ++ requests (S k) QUERY_SIZE ++ rest.
Proof.
  intros Hd. inversion Hd as [g s0 g' s0' Hn | g s0 v g' s1 vs' s0' Hn Hrest]; subst.
  - eapply next_Start_requests; eassumption.
  - destruct (next_Start_requests _ _ _ _ Hn) as (k & rest & Hc).
    destruct (drains_calls _ _ _ _ _ Hrest) as [c Hc'].
    exists k, (rest ++ c). now rewrite Hc', Hc, <- !app_assoc.
Qed.

End Restart.

(** * The properties *)

Section Properties.

Context {W : Type} (os : Win32 W).

(** ** The enumerator *)

(** C1.  [getProcessIDList] asks for [QUERY_SIZE] entries first and for
    twice as many after every answer that fills the buffer.  It returns
    [ids] exactly when, for some [k], the OS filled the first [k] buffers
    and then stored [ids], strictly fewer entries than asked for
    ([probes]); it has then made exactly the [k + 1] requests of
    capacities [QUERY_SIZE], [2 * QUERY_SIZE], ..., and nothing else, and
    [ids] are the entries of the last answer in the order the OS stored
    them.  Any fuel above [k] gives that result. *)
Theorem getProcessIDList_capacity_probing (fuel : nat) (s : state W)
    (ids : list DWord) (s' : state W) :
  getProcessIDList os fuel s = (Some ids, s') <->
  exists k, k < fuel /\
    probes os k QUERY_SIZE (world s) ids (world s') /\
    calls s' = calls s ++ requests (S k) QUERY_SIZE /\
    handles s' = handles s.
Proof.
  unfold getProcessIDList.
  apply (getProcessIDList_loop_probes os fuel (QUERY_SIZE / 2)).
Qed.


(** ** The resolver *)


(** C5, as the code has it.  [getProcessName] never gives a handle back:
    the handles open after the call are those open before it, followed
    by the handle [OpenProcess] gave when that is not NULL.  Only when
    the open fails are the open handles the same before and after. *)
Theorem getProcessName_handles (pid : DWord) (s : state W) :
  handles (snd (getProcessName os pid s)) =
    handles s ++
    (if truthy_handle (fst (OpenProcess os access 0 pid (world s)))
     then [fst (OpenProcess os access 0 pid (world s))] else []).
Proof.
  unfold getProcessName, kernel32_OpenProcess, psapi_EnumProcessModules,
    kernel32_K32GetModuleBaseNameA.
  fold access.
  destruct (OpenProcess os access 0 pid (world s)) as [h w1].
  cbn [fst]. destruct (truthy_handle h); cbn [world calls handles snd];
    [|now rewrite app_nil_r].
  destruct (EnumProcessModules os h (sizeof_pointer os) w1) as [[ok m] w2].
  destruct (truthy_byte ok); cbn [world calls handles snd]; [|reflexivity].
  destruct (K32GetModuleBaseNameA os h m _ w2) as [bs w3]. reflexivity.
Qed.


(** ** The generator and its consumers *)

(** C2, as the code has it.  When the enumeration gives the identifiers
    [ids], the generator resolves them in order and hands out exactly the
    resolutions that are truthy, in that order: a process that resolves
    to [undefined] or to the empty string is left out.  So the names are
    no more than the identifiers that resolve to a name, which are no
    more than the identifiers. *)
Theorem processNameIterator_yields (f fuel : nat) (s : state W)
    (ids : list DWord) (s1 : state W) :
  getProcessIDList os f s = (Some ids, s1) -> f <= fuel ->
  List.length ids < fuel ->
  let rs := fst (resolve_all os ids s1) in
  exists names s',
    drains os fuel processNameIterator s names s' /\
    map Some names = filter truthy_name rs /\
    List.length rs = List.length ids /\
    List.length names <= List.length (filter present rs) /\
    List.length (filter present rs) <= List.length ids.
Proof.
  intros Henum Hle Hfuel rs.
  assert (Hrs : List.length rs = List.length ids) by apply resolve_all_length.
  assert (Hy : List.length (yielded rs) < fuel)
    by (pose proof (yielded_length rs); lia).
  pose proof (getProcessNameList_closed os f fuel s ids s1 Henum Hle Hy) as Hlist.
  fold rs in Hlist. unfold getProcessNameList in Hlist.
  destruct (spread_drains os fuel fuel _ _ _ _ _ Hlist) as (vs & Hvs & Hd).
  cbn [app] in Hvs. subst vs.
  exists (yielded rs), (snd (resolve_all os ids s1)).
  split; [exact Hd|]. split; [apply yielded_filter|]. split; [exact Hrs|].
  split.
  - rewrite <- (length_map Some), yielded_filter. apply present_truthy.
  - rewrite <- Hrs. apply filter_length_le.
Qed.

(** C3.  When the enumeration gives the identifiers [ids],
    [checkProcessIsRunning name] returns [true] if and only if [name] is
    one of the names [getProcessNameList] returns, and [false] otherwise;
    it resolves the identifiers up to and including the first one whose
    name is [name] (all of them when there is none) and makes no
    resolver call after that. *)
Theorem checkProcessIsRunning_short_circuit (f fuel : nat) (name : string)
    (s : state W) (ids : list DWord) (s1 : state W) :
  getProcessIDList os f s = (Some ids, s1) -> f <= fuel ->
  List.length ids < fuel ->
  let rs := fst (resolve_all os ids s1) in
  exists b s',
    checkProcessIsRunning os fuel name s = (Some b, s') /\
    fst (getProcessNameList os fuel s) = Some (yielded rs) /\
    (b = true <-> In name (yielded rs)) /\
    s' = snd (resolve_all os (firstn (cut name rs) ids) s1) /\
    resolver_calls (calls s') =
      resolver_calls (calls s) ++ firstn (cut name rs) ids.
Proof.
  intros Henum Hle Hfuel rs.
  assert (Hy : List.length (yielded rs) < fuel).
  { pose proof (yielded_length rs).
    pose proof (resolve_all_length os ids s1). fold rs in H0. lia. }
  exists (existsb (hit name) rs),
    (snd (resolve_all os (firstn (cut name rs) ids) s1)).
  split; [now apply (checkProcessIsRunning_closed os f)|].
  split; [now rewrite (getProcessNameList_closed os f fuel s ids s1)|].
  split; [apply existsb_hit|]. split; [reflexivity|].
  rewrite resolve_all_resolver_calls. f_equal.
  unfold getProcessIDList in Henum.
  apply getProcessIDList_loop_probes in Henum.
  destruct Henum as (k & _ & _ & Hc & _).
  now rewrite Hc, resolver_calls_app, resolver_calls_requests, app_nil_r.
Qed.

(** C8.  [getProcessNameList] returns a list exactly when the successive
    [next()] calls on a fresh [processNameIterator()] give the elements
    of that list, in that order, and then [{done: true}]; both leave the
    same state. *)
Theorem getProcessNameList_materializes (s : state W)
    (names : list string) (s' : state W) :
  (exists fuel, getProcessNameList os fuel s = (Some names, s')) <->
  (exists fuel, drains os fuel processNameIterator s names s').
Proof.
  split.
  - intros [fuel H]. exists fuel. unfold getProcessNameList in H.
    destruct (spread_drains os fuel fuel _ _ _ _ _ H) as (vs & Hvs & Hd).
    cbn [app] in Hvs. now subst vs.
  - intros [e Hd]. exists (Nat.max e (S (List.length names))).
    unfold getProcessNameList.
    apply (drains_spread os _ _ _ _ _
             (drains_more_fuel os e _ _ _ _ _ Hd (Nat.le_max_l _ _))).
    lia.
Qed.

(** C9.  When a first run of a fresh [processNameIterator()] to its end
    gives [names] and leaves the OS world as it found it, a second run
    gives [names] again; it makes the same native calls as the first, in
    the same order, starting with the enumeration: nothing of the first
    run is kept. *)
Theorem processNameIterator_restartable (fuel : nat) (s : state W)
    (names : list string) (s1 : state W) :
  drains os fuel processNameIterator s names s1 ->
  world s1 = world s ->
  exists s2 made,
    drains os fuel processNameIterator s1 names s2 /\
    world s2 = world s /\
    calls s1 = calls s ++ made /\
    calls s2 = calls s1 ++ made /\
    exists k rest, made = requests (S k) QUERY_SIZE ++ rest.
Proof.
  intros Hd Hw.
  pose proof (drains_spread os _ _ _ _ _ Hd (S (List.length names)) []
                (Nat.lt_succ_diag_r _)) as Hrun.
  cbn [app] in Hrun.
  pose proof (spread_framed (S (List.length names)) (next os fuel)
                (next_framed os fuel) processNameIterator []) as Hf.
  destruct (framed_same_world _ s1 s Hf Hw)
    as (Hfst & Hworld & made & opened & Hc1 & Hc & _).
  rewrite Hrun in Hfst, Hworld, Hc. cbn [fst snd] in Hfst, Hworld, Hc.
  destruct (spread (S (List.length names)) (next os fuel)
              processNameIterator [] s1) as [r s2] eqn:Hrun2.
  cbn [fst snd] in Hfst, Hworld, Hc1. subst r.
  destruct (spread_drains os fuel _ _ _ _ _ _ Hrun2) as (vs & Hvs & Hd2).
  cbn [app] in Hvs. subst vs.
  exists s2, made. repeat split; try assumption; [congruence|].
  destruct (drains_Start_requests os _ _ _ _ Hd) as (k & rest & Hreq).
  exists k, rest. rewrite Hc in Hreq. now apply app_inv_head in Hreq.
Qed.

(** C10.  Every name [getProcessNameList] returns is a non-empty string,
    and [checkProcessIsRunning] of the empty string then runs through
    all the processes and returns [false]; in the generator's loop an
    identifier that resolves to the empty string is passed over by the
    same step as one that resolves to [undefined]. *)
Theorem processNameIterator_nonempty (fuel : nat) (s : state W)
    (names : list string) (s' : state W) :
  getProcessNameList os fuel s = (Some names, s') ->
  Forall (fun v => v <> EmptyString) names /\
  checkProcessIsRunning os fuel EmptyString s = (Some false, s') /\
  forall n ids i pid (t : state W),
    nth_error ids i = Some pid ->
    fst (getProcessName os pid t) = Some EmptyString \/
    fst (getProcessName os pid t) = None ->
    for_loop os (S n) ids i t =
      for_loop os n ids (S i) (snd (getProcessName os pid t)).
Proof.
  intros H. unfold getProcessNameList in H. split; [|split].
  - eapply spread_nonempty; [exact H | constructor].
  - eapply spread_for_of_empty; exact H.
  - intros n ids i pid t Hnth Hr. apply for_loop_skip; [exact Hnth|].
    destruct Hr as [-> | ->]; reflexivity.
Qed.

End Properties.

(** * The properties on the test doubles *)

(** The example scenario of the specification. *)
Example scenario_names :
  fst (getProcessNameList scenario 4 (boot tt)) = Some ["alpha.exe"; "beta.exe"]%string.
Proof. vm_compute. reflexivity. Qed.

Example scenario_beta :
  fst (checkProcessIsRunning scenario 4 "beta.exe" (boot tt)) = Some true /\
  resolver_calls (calls (snd (checkProcessIsRunning scenario 4 "beta.exe" (boot tt))))
    = [10; 20; 30]%N.
Proof. vm_compute. split; reflexivity. Qed.

Example scenario_gamma :
  fst (checkProcessIsRunning scenario 4 "gamma.exe" (boot tt)) = Some false.
Proof. vm_compute. reflexivity. Qed.

(** C1 on a host with 2048 processes: the first buffer, of 2048 entries, is
    filled, the second, of 4096, is not; two requests are made. *)
Lemma getProcessIDList_crowd :
  getProcessIDList (crowd 2048) 2 (boot tt) =
    (Some (stored (crowd 2048) 4096 tt),
     mkState tt [CallEnumProcesses 8192; CallEnumProcesses 16384] []) /\
  List.length (stored (crowd 2048) 4096 tt) = 2048.
Proof.
  split; [|vm_compute; reflexivity].
  apply getProcessIDList_capacity_probing. exists 1.
  split; [lia|]. split; [|split; reflexivity].
  apply probes_full; [vm_compute; reflexivity|].
  apply (probes_short (crowd 2048) 4096%N tt). vm_compute. reflexivity.
Defined.




(** C5 as stated fails: after resolving process 10 of the scenario its
    handle is still open. *)
Lemma getProcessName_leaves_handle_open :
  handles (snd (getProcessName scenario 10%N (boot tt))) <> handles (boot tt).
Proof. vm_compute. discriminate. Qed.


(** C2 as stated fails: the one process of [nameless] resolves to a name,
    the empty string, and the generator hands out nothing. *)
Lemma nameless_is_not_yielded :
  getProcessIDList nameless 1 (boot tt) = (Some [10%N], enumerated) /\
  fst (resolve_all nameless [10%N] enumerated) = [Some EmptyString] /\
  fst (getProcessNameList nameless 2 (boot tt)) = Some [].
Proof. vm_compute. repeat split. Qed.

(** C2 on the scenario. *)
Lemma processNameIterator_yields_scenario :
  exists names s',
    drains scenario 4 processNameIterator (boot tt) names s' /\
    map Some names = [Some "alpha.exe"; Some "beta.exe"]%string /\
    List.length names <= 2 /\ 2 <= 3.
Proof.
  destruct (processNameIterator_yields scenario 1 4 (boot tt) [10; 20; 30]%N
              enumerated)
    as (names & s' & Hd & Hm & _ & Hl & Hn);
    [vm_compute; reflexivity | lia | cbn; lia |].
  exists names, s'. repeat split; [exact Hd | exact Hm | exact Hl | exact Hn].
Defined.

(** C3 on the scenario: looking for the first process resolves that one
    only. *)
Lemma checkProcessIsRunning_scenario :
  exists b s',
    checkProcessIsRunning scenario 4 "alpha.exe" (boot tt) = (Some b, s') /\
    (b = true <-> In "alpha.exe"%string ["alpha.exe"; "beta.exe"]%string) /\
    resolver_calls (calls s') = [10%N].
Proof.
  destruct (checkProcessIsRunning_short_circuit scenario 1 4 "alpha.exe"
              (boot tt) [10; 20; 30]%N enumerated)
    as (b & s' & Hrun & _ & Hb & _ & Hcalls);
    [vm_compute; reflexivity | lia | cbn; lia |].
  exists b, s'. repeat split; [exact Hrun | apply Hb | apply Hb | exact Hcalls].
Defined.

(** C9 on the scenario, whose world never changes. *)
Lemma processNameIterator_restartable_scenario :
  exists s2 made,
    drains scenario 4 processNameIterator drained
      ["alpha.exe"; "beta.exe"]%string s2 /\
    world s2 = tt /\
    calls drained = made /\
    calls s2 = calls drained ++ made /\
    exists k rest, made = requests (S k) QUERY_SIZE ++ rest.
Proof.
  apply (processNameIterator_restartable scenario 4 (boot tt)
           ["alpha.exe"; "beta.exe"]%string drained); [|reflexivity].
  destruct (spread_drains scenario 4 4 processNameIterator [] (boot tt)
              ["alpha.exe"; "beta.exe"]%string drained)
    as (vs & Hvs & Hd); [vm_compute; reflexivity|].
  cbn [app] in Hvs. rewrite Hvs. exact Hd.
Defined.

(** C10 on a host with a process that resolves to the empty string. *)
Lemma processNameIterator_nonempty_haunted :
  fst (getProcessName haunted 10%N enumerated) = Some EmptyString /\
  Forall (fun v => v <> EmptyString) ["beta.exe"]%string /\
  checkProcessIsRunning haunted 4 EmptyString (boot tt) =
    (Some false, snd (getProcessNameList haunted 4 (boot tt))).
Proof.
  split; [vm_compute; reflexivity|].
  destruct (processNameIterator_nonempty haunted 4 (boot tt)
              ["beta.exe"]%string (snd (getProcessNameList haunted 4 (boot tt))))
    as (Hall & Hrun & _);
    [vm_compute; reflexivity|].
  split; [exact Hall | exact Hrun].
Defined.

(** * Further properties of the module *)

(** ** The enumerator on a host whose process list stands still *)

Section Standstill.

Context {W : Type} (os : Win32 W).


(** The first iteration of the loop, when the first answer is short. *)
Lemma getProcessIDList_first_answer (fuel : nat) (s : state W)
    (ids : list DWord) (w1 : W) :
  EnumProcesses os (DWord_size * QUERY_SIZE) (world s) = (ids, w1) ->
  (N.of_nat (List.length ids) < QUERY_SIZE)%N ->
  getProcessIDList os (S fuel) s =
    (Some ids,
     mkState w1 (calls s ++ [CallEnumProcesses (DWord_size * QUERY_SIZE)])
       (handles s)).
Proof.
  intros Hfirst Hlt. unfold getProcessIDList.
  rewrite getProcessIDList_loop_step. cbv zeta.
  change (QUERY_SIZE / 2 * 2)%N with QUERY_SIZE.
  assert (Hs : stored os QUERY_SIZE (world s) = ids).
  { unfold stored. rewrite Hfirst. cbn [fst]. apply firstn_all2. lia. }
  unfold returned, after_request. rewrite Hs, Hfirst. cbn [snd].
  destruct (N.eqb_spec (N.of_nat (List.length ids)) QUERY_SIZE) as [E|_];
    [lia | reflexivity].
Qed.

End Standstill.

Section EnumeratorMore.

Context {W : Type} (os : Win32 W).

(** X1.  [_retrieveNProcesses n] makes one [EnumProcesses] request of
    [DWord.size * n] bytes and nothing else; the array it returns has [n]
    cells, the count it returns is at most [n], and the first [count]
    cells are the identifiers the OS had to report, in its order, cut
    after [n] of them. *)
Theorem _retrieveNProcesses_buffer (n : N) (s : state W) :
  List.length (fst (fst (_retrieveNProcesses os n s))) = N.to_nat n /\
  (snd (fst (_retrieveNProcesses os n s)) <= n)%N /\
  firstn (N.to_nat (snd (fst (_retrieveNProcesses os n s))))
    (fst (fst (_retrieveNProcesses os n s))) =
    firstn (N.to_nat n) (fst (EnumProcesses os (DWord_size * n) (world s))) /\
  calls (snd (_retrieveNProcesses os n s)) =
    calls s ++ [CallEnumProcesses (DWord_size * n)] /\
  handles (snd (_retrieveNProcesses os n s)) = handles s.
Proof.
  rewrite _retrieveNProcesses_eq. cbn [fst snd calls handles].
  pose proof (stored_length os n (world s)) as Hlen.
  split; [|split; [|split; [|split; reflexivity]]].
  - rewrite overlay_length; rewrite repeat_length; [reflexivity | exact Hlen].
  - apply returned_le.
  - unfold returned. rewrite Nat2N.id.
    rewrite overlay_prefix by (rewrite repeat_length; exact Hlen).
    reflexivity.
Qed.


(** X3.  When the first answer of the OS has fewer than [QUERY_SIZE]
    identifiers, none included, [getProcessIDList] returns that answer
    after this one request. *)
Theorem getProcessIDList_single_request (fuel : nat) (s : state W)
    (ids : list DWord) (w1 : W) :
  EnumProcesses os (DWord_size * QUERY_SIZE) (world s) = (ids, w1) ->
  (N.of_nat (List.length ids) < QUERY_SIZE)%N ->
  getProcessIDList os (S fuel) s =
    (Some ids,
     mkState w1 (calls s ++ [CallEnumProcesses (DWord_size * QUERY_SIZE)])
       (handles s)).
Proof. apply getProcessIDList_first_answer. Qed.

End EnumeratorMore.

(** ** The resolver: what it calls and what it reads *)

Lemma until_nul_no_nul (bs : list byte) : ~ In x00 (until_nul bs).
Proof.
  induction bs as [|b bs IH]; cbn [until_nul]; [intros []|].
  destruct (Byte.eqb b x00) eqn:E; [intros []|].
  intros [Hb|Hin]; [|now apply IH].
  subst b. discriminate.
Qed.

(** The C string of a zero-filled buffer of [n] bytes that a call stored
    [bs] into is the C string of [bs], when that is shorter than [n]. *)
Lemma until_nul_padded (bs : list byte) :
  forall n, List.length (until_nul bs) < n ->
    until_nul (firstn n bs ++ repeat x00 (n - List.length (firstn n bs))) =
      until_nul bs.
Proof.
  induction bs as [|b bs IH]; intros n Hlt.
  - rewrite firstn_nil. destruct n; [cbn in Hlt; lia | reflexivity].
  - destruct n as [|n]; [lia|].
    cbn [firstn app List.length Nat.sub until_nul] in Hlt |- *.
    destruct (Byte.eqb b x00); [reflexivity|].
    f_equal. apply IH. cbn [List.length] in Hlt. lia.
Qed.

Lemma until_nul_overlay (bs : list byte) (n : nat) :
  List.length (until_nul bs) < n ->
  until_nul (overlay (firstn n bs) (repeat x00 n)) = until_nul bs.
Proof.
  intros Hlt.
  rewrite overlay_zeroes by (rewrite length_firstn; apply Nat.le_min_l).
  now apply until_nul_padded.
Qed.


Section ResolverMore.

Context {W : Type} (os : Win32 W).

(** A name is the C string of the 32-byte buffer after some
    [K32GetModuleBaseNameA] call of size 32. *)
Lemma getProcessName_some_inv (pid : DWord) (s : state W) (name : string) :
  fst (getProcessName os pid s) = Some name ->
  exists h m w,
    name = readCString
             (overlay
                (firstn (N.to_nat MAX_PROCESS_NAME_LENGTH)
                   (fst (K32GetModuleBaseNameA os h m MAX_PROCESS_NAME_LENGTH w)))
                (repeat x00 (N.to_nat MAX_PROCESS_NAME_LENGTH))).
Proof.
  unfold getProcessName, kernel32_OpenProcess, psapi_EnumProcessModules,
    kernel32_K32GetModuleBaseNameA.
  destruct (OpenProcess os _ 0 pid (world s)) as [h w1].
  destruct (truthy_handle h); [|discriminate].
  cbn [world calls handles].
  destruct (EnumProcessModules os h (sizeof_pointer os) w1) as [[ok m] w2].
  destruct (truthy_byte ok); [|discriminate].
  rewrite repeat_length, N2Nat.id. cbn [world calls handles].
  destruct (K32GetModuleBaseNameA os h m MAX_PROCESS_NAME_LENGTH w2)
    as [bs w3] eqn:Hname.
  cbn [fst]. intros H. injection H as <-.
  exists h, m, w2. now rewrite Hname.
Qed.




(** X7.  A name [getProcessName] returns holds no NUL character. *)
Theorem getProcessName_no_nul (pid : DWord) (s : state W) (name : string) :
  fst (getProcessName os pid s) = Some name ->
  ~ In x00 (list_byte_of_string name).
Proof.
  intros H. destruct (getProcessName_some_inv pid s name H) as (h & m & w & ->).
  unfold readCString. rewrite list_byte_of_string_of_list_byte.
  apply until_nul_no_nul.
Qed.

End ResolverMore.

(** ** The generator, step by step *)

Lemma nth_error_skipn {A : Type} (i : nat) :
  forall (l : list A) (x : A),
    nth_error l i = Some x -> skipn i l = x :: skipn (S i) l.
Proof.
  induction i as [|i IH]; intros [|y l] x H; try discriminate.
  - cbn in H. now injection H as ->.
  - cbn [nth_error] in H. cbn [skipn]. now apply IH.
Qed.

Section GeneratorMore.

Context {W : Type} (os : Win32 W).

(** What a run of the [for] loop from index [i] resolves: the identifiers
    from [i] up to the one it stops at, or to the last one. *)
Lemma for_loop_trace (n : nat) :
  forall ids i (s : state W) r g s',
    List.length ids - i <= n ->
    for_loop os n ids i s = ((r, g), s') ->
    match r with
    | Value _ =>
        exists j, g = AtYield ids j /\ i <= j < List.length ids /\
          resolver_calls (calls s') =
            resolver_calls (calls s) ++ firstn (S j - i) (skipn i ids)
    | Done =>
        g = Finished /\
        resolver_calls (calls s') = resolver_calls (calls s) ++ skipn i ids
    end.
Proof.
  induction n as [|n IH]; intros ids i s r g s' Hn H.
  - cbn in H. injection H as <- <- <-.
    rewrite skipn_all2 by lia. now rewrite app_nil_r.
  - cbn [for_loop] in H. destruct (nth_error ids i) as [pid|] eqn:Hnth.
    + assert (Hi : i < List.length ids)
        by (apply nth_error_Some; congruence).
      rewrite (nth_error_skipn i ids pid Hnth).
      pose proof (getProcessName_resolver_calls os pid s) as Hone.
      destruct (getProcessName os pid s) as [name s0]. cbn [snd] in Hone.
      destruct (truthy_name name).
      * injection H as <- <- <-. exists i.
        repeat split; [lia | exact Hi |].
        replace (S i - i) with 1 by lia. exact Hone.
      * specialize (IH ids (S i) s0 r g s' ltac:(lia) H).
        destruct r as [v|].
        -- destruct IH as (j & Hg & Hj & Hc). exists j.
           repeat split; [exact Hg | lia | lia |].
           replace (S j - i) with (S (S j - S i)) by lia.
           cbn [firstn]. rewrite Hc, Hone, <- app_assoc. reflexivity.
        -- destruct IH as (Hg & Hc). split; [exact Hg|].
           rewrite Hc, Hone, <- app_assoc. reflexivity.
    + injection H as <- <- <-.
      apply nth_error_None in Hnth.
      rewrite skipn_all2 by lia. now rewrite app_nil_r.
Qed.

(** X8.  Once [next()] has answered [{done: true}] the generator is
    finished: every later [next()] answers [{done: true}] again and makes
    no native call. *)
Theorem next_done_stays_done (e : nat) (g : generator) (s : state W)
    (g' : generator) (s' : state W) :
  next os e g s = (Some (Done, g'), s') ->
  forall e' t, next os e' g' t = (Some (Done, g'), t).
Proof.
  intros H. assert (Hg : g' = Finished); [|now subst g'].
  destruct g as [|ids i|]; cbn [next] in H.
  - destruct (getProcessIDList os e s) as [[ids|] s1]; [|discriminate].
    destruct (for_loop os (List.length ids) ids 0 s1) as [[r g0] s2] eqn:Hloop.
    injection H as -> -> _.
    now destruct (for_loop_trace _ _ _ _ _ _ _ (Nat.le_sub_l _ _) Hloop).
  - destruct (for_loop os (List.length ids - S i) ids (S i) s)
      as [[r g0] s2] eqn:Hloop.
    injection H as -> -> _.
    now destruct (for_loop_trace _ _ _ _ _ _ _ (Nat.le_refl _) Hloop).
  - now injection H as <- _.
Qed.


End GeneratorMore.

(** ** The consumers: what a whole pass costs and leaves behind *)

Lemma cut_miss (name : string) (rs : list (option string)) :
  existsb (hit name) rs = false -> cut name rs = List.length rs.
Proof.
  induction rs as [|r rs IH]; [reflexivity|].
  cbn [existsb cut List.length]. destruct (hit name r); [discriminate|].
  cbn [orb]. intros H. now rewrite IH.
Qed.

Lemma until_nul_closed (l : list byte) :
  List.length (until_nul (l ++ [x00])) <= List.length l.
Proof.
  induction l as [|b l IH]; [cbn; lia|].
  cbn [app until_nul]. destruct (Byte.eqb b x00); cbn [List.length]; lia.
Qed.

(** A fixture stores every name the way Windows does, closed by a NUL
    inside the 32 bytes. *)
Lemma fixture_terminates (table : list (DWord * process))
    (h m : Handle) (w : unit) :
  List.length
    (until_nul
       (fst (K32GetModuleBaseNameA (fixture table) h m
               MAX_PROCESS_NAME_LENGTH w))) <= 31.
Proof.
  cbn [fixture K32GetModuleBaseNameA].
  destruct (lookup (h / 4 - 1)%N table) as [[| | |base]|]; cbn [fst until_nul];
    try (cbn; lia).
  unfold win32_name. etransitivity; [apply until_nul_closed|].
  rewrite length_firstn. apply Nat.le_min_l.
Qed.

Section ConsumersMore.

Context {W : Type} (os : Win32 W).

Lemma resolve_all_app (l1 l2 : list DWord) :
  forall s : state W,
    resolve_all os (l1 ++ l2) s =
      (fst (resolve_all os l1 s) ++
       fst (resolve_all os l2 (snd (resolve_all os l1 s))),
       snd (resolve_all os l2 (snd (resolve_all os l1 s)))).
Proof.
  induction l1 as [|pid l1 IH]; intros s.
  - cbn. now destruct (resolve_all os l2 s).
  - cbn [app resolve_all]. destruct (getProcessName os pid s) as [r s0].
    rewrite IH. destruct (resolve_all os l1 s0) as [rs s1]. reflexivity.
Qed.



(** A name the generator hands out is a name the resolver returned. *)
Lemma for_loop_value_of (P : string -> Prop) :
  (forall pid (s : state W) name,
     fst (getProcessName os pid s) = Some name -> P name) ->
  forall n ids i (s : state W) v g s',
    for_loop os n ids i s = ((Value v, g), s') -> P v.
Proof.
  intros HP. induction n as [|n IH]; intros ids i s v g s' H; [discriminate|].
  cbn [for_loop] in H. destruct (nth_error ids i) as [pid|]; [|discriminate].
  pose proof (HP pid s) as Hname.
  destruct (getProcessName os pid s) as [r s0]. cbn [fst] in Hname.
  destruct (truthy_name r) eqn:Ht; [|eapply IH; eassumption].
  destruct (truthy_name_inv _ Ht) as (a & u & ->).
  injection H as <- _ _. now apply Hname.
Qed.

Lemma next_value_of (P : string -> Prop) :
  (forall pid (s : state W) name,
     fst (getProcessName os pid s) = Some name -> P name) ->
  forall e g (s : state W) v g' s',
    next os e g s = (Some (Value v, g'), s') -> P v.
Proof.
  intros HP e g s v g' s' H. destruct g as [|ids i|]; cbn [next] in H;
    [| |discriminate].
  - destruct (getProcessIDList os e s) as [[ids|] s1]; [|discriminate].
    destruct (for_loop os _ ids 0 s1) as [[r g0] s2] eqn:Hloop.
    injection H as -> -> ->. eapply for_loop_value_of; eassumption.
  - destruct (for_loop os _ ids (S i) s) as [[r g0] s2] eqn:Hloop.
    injection H as -> -> ->. eapply for_loop_value_of; eassumption.
Qed.

(** Looking for a name the generator cannot hand out takes it to its end,
    as the spread does. *)
Lemma spread_for_of_miss (e : nat) (name : string) :
  (forall g (s : state W) v g' s',
     next os e g s = (Some (Value v, g'), s') -> v <> name) ->
  forall fuel g acc (s : state W) l s',
    spread fuel (next os e) g acc s = (Some l, s') ->
    for_of fuel (next os e) name g s = (Some false, s') /\
    (~ In name acc -> ~ In name l).
Proof.
  intros Hmiss. induction fuel as [|fuel IH]; intros g acc s l s' H;
    [discriminate|].
  cbn [spread] in H. cbn [for_of].
  destruct (next os e g s) as [[[[v|] g']|] s1] eqn:Hn; [| |discriminate].
  - pose proof (Hmiss _ _ _ _ _ Hn) as Hv.
    apply String.eqb_neq in Hv. rewrite Hv.
    destruct (IH g' (acc ++ [v]) s1 l s' H) as [Hrun Hin].
    split; [exact Hrun|]. intros Hacc. apply Hin.
    intros Hin'. apply in_app_or in Hin'. destruct Hin' as [Ha|[Hv'|[]]].
    + now apply Hacc.
    + subst v. now rewrite String.eqb_refl in Hv.
  - injection H as <- <-. now split.
Qed.


(** X11.  From the same state, [checkProcessIsRunning] makes the native
    calls [getProcessNameList] makes, up to the point where it finds the
    name: the log and the open handles of the one are a beginning of
    those of the other, and when the answer is [false] the two leave the
    same state. *)
Theorem checkProcessIsRunning_within_pass (f fuel : nat) (name : string)
    (s : state W) (ids : list DWord) (s1 : state W) :
  getProcessIDList os f s = (Some ids, s1) -> f <= fuel ->
  List.length ids < fuel ->
  exists b s' names s'' more opened,
    checkProcessIsRunning os fuel name s = (Some b, s') /\
    getProcessNameList os fuel s = (Some names, s'') /\
    calls s'' = calls s' ++ more /\
    handles s'' = handles s' ++ opened /\
    (b = false -> s'' = s').
Proof.
  intros Henum Hle Hfuel.
  pose proof (resolve_all_length os ids s1) as Hrs.
  assert (Hy : List.length (yielded (fst (resolve_all os ids s1))) < fuel)
    by (pose proof (yielded_length (fst (resolve_all os ids s1))); lia).
  rewrite (checkProcessIsRunning_closed os f fuel name s ids s1 Henum Hle Hy).
  rewrite (getProcessNameList_closed os f fuel s ids s1 Henum Hle Hy).
  set (rs := fst (resolve_all os ids s1)) in *.
  set (c := cut name rs).
  set (s' := snd (resolve_all os (firstn c ids) s1)).
  assert (Hsplit : snd (resolve_all os ids s1) =
                   snd (resolve_all os (skipn c ids) s')).
  { rewrite <- (firstn_skipn c ids) at 1. now rewrite resolve_all_app. }
  exists (existsb (hit name) rs), s', (yielded rs),
    (snd (resolve_all os ids s1)),
    (calls (snd (resolve_all os (skipn c ids) (boot (world s'))))),
    (handles (snd (resolve_all os (skipn c ids) (boot (world s'))))).
  repeat split.
  - rewrite Hsplit, (resolve_all_framed os (skipn c ids) s'). reflexivity.
  - rewrite Hsplit, (resolve_all_framed os (skipn c ids) s'). reflexivity.
  - intros Hb. rewrite Hsplit. unfold c.
    rewrite (cut_miss name rs Hb), Hrs.
    now rewrite skipn_all.
Qed.

(** X12.  On a host that reports no process, [getProcessNameList] returns
    the empty list and [checkProcessIsRunning] returns [false] for every
    name, after the one enumeration request and no other native call. *)
Theorem no_process (fuel : nat) (name : string) (s : state W) (w1 : W) :
  EnumProcesses os (DWord_size * QUERY_SIZE) (world s) = ([], w1) ->
  getProcessNameList os (S fuel) s =
    (Some [],
     mkState w1 (calls s ++ [CallEnumProcesses (DWord_size * QUERY_SIZE)])
       (handles s)) /\
  checkProcessIsRunning os (S fuel) name s =
    (Some false,
     mkState w1 (calls s ++ [CallEnumProcesses (DWord_size * QUERY_SIZE)])
       (handles s)).
Proof.
  intros Hfirst.
  pose proof (getProcessIDList_first_answer os fuel s [] w1 Hfirst eq_refl)
    as Henum.
  unfold getProcessNameList, checkProcessIsRunning, processNameIterator.
  cbn [spread for_of next]. rewrite Henum. split; reflexivity.
Qed.

(** X13.  When every base name the OS stores ends, by a NUL or by its
    last byte, within 31 bytes, no name of more than 31 characters is in
    the list [getProcessNameList] returns, and [checkProcessIsRunning] of
    such a name runs through all the processes and returns [false]: a
    process cannot be found by a name longer than the buffer allows. *)
Theorem long_name_not_found (fuel : nat) (name : string) (s : state W)
    (names : list string) (s' : state W) :
  (forall h m w,
     List.length
       (until_nul
          (fst (K32GetModuleBaseNameA os h m MAX_PROCESS_NAME_LENGTH w)))
     <= 31) ->
  31 < String.length name ->
  getProcessNameList os fuel s = (Some names, s') ->
  ~ In name names /\
  checkProcessIsRunning os fuel name s = (Some false, s').
Proof.
  intros Hterm Hlong H.
  assert (Hshort : forall pid (t : state W) v,
             fst (getProcessName os pid t) = Some v -> String.length v <= 31).
  { intros pid t v Hv.
    destruct (getProcessName_some_inv os pid t v Hv) as (h & m & w & ->).
    unfold readCString. rewrite string_of_list_byte_length.
    rewrite until_nul_overlay; [apply Hterm|].
    change (N.to_nat MAX_PROCESS_NAME_LENGTH) with 32.
    specialize (Hterm h m w). lia. }
  assert (Hmiss : forall g (t : state W) v g' t',
             next os fuel g t = (Some (Value v, g'), t') -> v <> name).
  { intros g t v g' t' Hn ->.
    pose proof (next_value_of (fun v => String.length v <= 31) Hshort
                  _ _ _ _ _ _ Hn). cbv beta in H0. lia. }
  unfold getProcessNameList in H.
  destruct (spread_for_of_miss fuel name Hmiss fuel _ _ _ _ _ H) as [Hrun Hin].
  split; [apply Hin; intros [] | exact Hrun].
Qed.

End ConsumersMore.

(** ** The further properties on the test doubles *)


(** X3 on the scenario. *)
Lemma getProcessIDList_single_request_scenario :
  getProcessIDList scenario 1 (boot tt) = (Some [10; 20; 30]%N, enumerated).
Proof.
  apply (getProcessIDList_single_request scenario 0 (boot tt) [10; 20; 30]%N tt);
    reflexivity.
Defined.


(** X7 on the scenario. *)
Lemma getProcessName_no_nul_scenario :
  ~ In x00 (list_byte_of_string "alpha.exe").
Proof.
  apply (getProcessName_no_nul scenario 10%N (boot tt)).
  vm_compute. reflexivity.
Defined.

(** X8 on a host none of whose processes has a name. *)
Lemma next_done_stays_done_guarded :
  fst (next guarded 1 Start (boot tt)) = Some (Done, Finished) /\
  next guarded 0 Finished enumerated = (Some (Done, Finished), enumerated).
Proof.
  split; [vm_compute; reflexivity|].
  apply (next_done_stays_done guarded 1 Start (boot tt) Finished
           (snd (next guarded 1 Start (boot tt)))).
  vm_compute. reflexivity.
Defined.



(** X11 on the scenario. *)
Lemma checkProcessIsRunning_within_pass_scenario :
  exists b s' names s'' more opened,
    checkProcessIsRunning scenario 4 "alpha.exe" (boot tt) = (Some b, s') /\
    getProcessNameList scenario 4 (boot tt) = (Some names, s'') /\
    calls s'' = calls s' ++ more /\
    handles s'' = handles s' ++ opened /\
    (b = false -> s'' = s').
Proof.
  apply (checkProcessIsRunning_within_pass scenario 1 4 "alpha.exe" (boot tt)
           [10; 20; 30]%N enumerated); [vm_compute; reflexivity | lia | cbn; lia].
Defined.

(** X12 on the host without processes. *)
Lemma no_process_fixture :
  getProcessNameList (fixture []) 1 (boot tt) = (Some [], enumerated) /\
  checkProcessIsRunning (fixture []) 1 "alpha.exe" (boot tt) =
    (Some false, enumerated).
Proof.
  apply (no_process (fixture []) 0 "alpha.exe" (boot tt) tt). reflexivity.
Defined.

(** X13 on the host whose one process has a base name of 43 characters:
    the process runs and cannot be found by that name. *)
Lemma long_name_not_found_longname :
  ~ In "a_very_long_executable_base_name_indeed.exe"%string
      ["a_very_long_executable_base_nam"%string] /\
  fst (checkProcessIsRunning longname 3
         "a_very_long_executable_base_name_indeed.exe" (boot tt)) = Some false.
Proof.
  destruct (long_name_not_found longname 3
              "a_very_long_executable_base_name_indeed.exe" (boot tt)
              ["a_very_long_executable_base_nam"%string]
              (snd (getProcessNameList longname 3 (boot tt))))
    as [Hin Hrun];
    [apply fixture_terminates | cbn; lia | vm_compute; reflexivity |].
  split; [exact Hin | now rewrite Hrun].
Defined.
